(** * 11centralapp: the Gemini helper scripts

    A shallow embedding of [scan_codebase.py] (the codebase documentation
    generator) and [test_gemini.py] (the connectivity check).

    Both scripts are straight-line effectful programs.  Their effects are
    modelled by a state-and-exception monad over a [World] that holds the
    remote service and operating-system oracle, the file store, standard
    output, and a log of the calls that left the program. *)

From Stdlib Require Import ZArith Ascii.
From stdpp Require Import gmap strings list fin_maps.

Local Open Scope Z_scope.
Local Open Scope nat_scope.

(* ===================================================================== *)
(** * Strings and paths                                                   *)
(* ===================================================================== *)

Module Str.

(** [str.startswith(prefix)]. *)
Fixpoint startswith (s pre : string) : bool :=
  match pre, s with
  | EmptyString, _ => true
  | String c pre', String d s' => Ascii.eqb c d && startswith s' pre'
  | String _ _, EmptyString => false
  end.

(** [str.endswith(suffix)]: some tail of [s] is [suffix]. *)
Fixpoint endswith (s suffix : string) : bool :=
  String.eqb s suffix ||
  match s with
  | EmptyString => false
  | String _ s' => endswith s' suffix
  end.

(** [str.endswith(tuple)]: true when [s] ends with any member. *)
Definition endswith_any (s : string) (suffixes : list string) : bool :=
  existsb (endswith s) suffixes.

(** Does the character occur in the string? *)
Fixpoint has_char (c : ascii) (s : string) : bool :=
  match s with
  | EmptyString => false
  | String d s' => Ascii.eqb c d || has_char c s'
  end.

(** ASCII [str.lower()], used only to speak about case variants. *)
Definition lower_char (c : ascii) : ascii :=
  let n := nat_of_ascii c in
  if (65 <=? n) && (n <=? 90) then ascii_of_nat (n + 32) else c.

Fixpoint lower (s : string) : string :=
  match s with
  | EmptyString => EmptyString
  | String c s' => String (lower_char c) (lower s')
  end.

End Str.

Module Path.

(** POSIX path separator. *)
Definition sep : string := "/".

(** [os.path.join(a, b)] as [posixpath] defines it: an absolute [b] or an
    empty [a] gives [b]; otherwise the two are glued with exactly one
    separator. *)
Definition join (a b : string) : string :=
  if Str.startswith b sep || String.eqb a "" then b
  else if Str.endswith a sep then a +:+ b
  else a +:+ sep +:+ b.

End Path.

(* ===================================================================== *)
(** * The directory tree and [os.walk]                                    *)
(* ===================================================================== *)

(** An entry of a directory as [os.scandir] lists it: a non-directory
    entry (only its name matters to the scripts) or a sub-directory with
    its own listing. *)
#[warnings="-register-all"]
Inductive entry : Type :=
| File (name : string)
| Folder (name : string) (children : list entry).

(** The listing of the directory the walk starts from. *)
Definition tree : Type := list entry.

(** One item produced by [os.walk]: [(root, dirs, files)]. *)
Definition walk_item : Type := string * list string * list string.

Definition is_dir (e : entry) : bool :=
  match e with File _ => false | Folder _ _ => true end.

Definition entry_name (e : entry) : string :=
  match e with File n => n | Folder n _ => n end.

(** [os.walk] splits a listing into [dirs] and [nondirs], keeping the
    listing order inside each. *)
Definition dirnames (es : list entry) : list string :=
  map entry_name (List.filter is_dir es).

Definition filenames (es : list entry) : list string :=
  map entry_name (List.filter (fun e => negb (is_dir e)) es).

(** The items [os.walk] yields for one entry of [top]: nothing for a
    file; for a sub-directory its own item first (top-down), then the
    items of its sub-directories in listing order. *)
Fixpoint walk_entry (top : string) (e : entry) : list walk_item :=
  match e with
  | File _ => []
  | Folder name children =>
      let new_path := Path.join top name in
      (new_path, dirnames children, filenames children)
        :: flat_map (walk_entry new_path) children
  end.

(** [os.walk(top)] with the default [topdown=True]. *)
Definition walk (top : string) (t : tree) : list walk_item :=
  (top, dirnames t, filenames t) :: flat_map (walk_entry top) t.

(* ===================================================================== *)
(** * Exceptions, the platform, and the world                             *)
(* ===================================================================== *)

(** A Python exception derived from [Exception]; [exn_msg] is [str(e)]. *)
Record exn : Type := Exception { exn_msg : string }.

(** One element of the list handed to [generate_content]: the prompt
    text or an uploaded-file object. *)
Inductive Part (H : Type) : Type :=
| PText (s : string)
| PFile (h : H).
Arguments PText {H} s.
Arguments PFile {H} h.

(** The argument of [generate_content]: a bare string ([test_gemini.py])
    or a list of parts ([scan_codebase.py]). *)
Inductive Contents (H : Type) : Type :=
| CStr (s : string)
| CList (parts : list (Part H)).
Arguments CStr {H} s.
Arguments CList {H} parts.

(** Everything outside the scripts: the [google.generativeai] client and
    the operating system.  [Env] is their hidden state; each operation
    answers from it and moves it on.  An [inl e] or [Some e] answer means
    that the Python call raises [e]. *)
Record Platform : Type := {
  Handle : Type;
  Response : Type;
  text : Response -> string;
  Env : Type;
  upload_file : string -> Env -> (exn + Handle) * Env;
  generate_content : Contents Handle -> Env -> (exn + Response) * Env;
  open_fault : string -> Env -> option exn * Env;
  write_fault : string -> string -> Env -> option exn * Env
}.

(** How a computation ends: with a value, with an [Exception] in flight,
    or with the [SystemExit] that [exit()] raises.  [SystemExit] derives
    from [BaseException] only, so [except Exception] does not catch it. *)
Inductive result (A : Type) : Type :=
| Ret (a : A)
| Raise (e : exn)
| SystemExit (code : option Z).
Arguments Ret {A} a.
Arguments Raise {A} e.
Arguments SystemExit {A} code.

(** A scripted platform for running the scripts on concrete inputs:
    uploads of the paths in [refused] fail, every other upload returns a
    handle made from the path; generation, [open] and [write] fail as the
    switches say.  The hidden state counts the calls made. *)
Module Demo.

Record switches : Type := {
  refused : list string;
  generation_fails : bool;
  open_fails : bool;
  write_fails : bool
}.

Definition platform (s : switches) : Platform := {|
  Handle := string;
  Response := string;
  text := fun r => r;
  Env := nat;
  upload_file := fun path n =>
    (if existsb (String.eqb path) (refused s)
     then inl (Exception "503 upload refused")
     else inr ("files/" +:+ path), S n);
  generate_content := fun _ n =>
    (if generation_fails s then inl (Exception "429 quota exceeded")
     else inr "# Project", S n);
  open_fault := fun _ n =>
    (if open_fails s then Some (Exception "Permission denied") else None, S n);
  write_fault := fun _ _ n =>
    (if write_fails s then Some (Exception "No space left on device") else None, S n)
|}.

(** The directory of the scenario: two allowed files and one that is not. *)
Definition project : tree := [File "a.py"; File "b.css"; File "notes.txt"].

(** A deeper tree, with names in other cases and an old [README.md]. *)
Definition nested : tree :=
  [File "README.md"; File "MAIN.PY";
   Folder "src" [File "app.tsx"; File "index.HTML"; Folder "lib" [File "util.js"]];
   File "main.py"].

Definition b_css_refused : switches :=
  {| refused := ["/proj/b.css"]; generation_fails := false;
     open_fails := false; write_fails := false |}.

Definition all_refused : switches :=
  {| refused := ["/proj/a.py"; "/proj/b.css"]; generation_fails := false;
     open_fails := false; write_fails := false |}.

Definition healthy : switches :=
  {| refused := []; generation_fails := false;
     open_fails := false; write_fails := false |}.

Definition no_quota : switches :=
  {| refused := []; generation_fails := true;
     open_fails := false; write_fails := false |}.

Definition disk_full : switches :=
  {| refused := []; generation_fails := false;
     open_fails := false; write_fails := true |}.

Definition refusing_b_css : Platform := platform b_css_refused.
Definition refusing_all : Platform := platform all_refused.
Definition working : Platform := platform healthy.
Definition out_of_quota : Platform := platform no_quota.
Definition full_disk : Platform := platform disk_full.

Definition read_only : Platform :=
  platform {| refused := []; generation_fails := false;
              open_fails := true; write_fails := false |}.

(** A directory without any file the filter lets through. *)
Definition docs_only : tree :=
  [File "README.md"; File "notes.txt"; Folder "img" [File "logo.PNG"]].

(** A file store that already holds an older document. *)
Definition old_store : gmap string string :=
  <["README.md" := "old text"]> (<["LICENSE" := "MIT"]> ∅).

End Demo.

Section Scripts.

Context (P : Platform).

(** Calls that leave the program, with what came back. *)
Inductive Call : Type :=
| CUpload (path : string) (res : exn + Handle P)
| CGenerate (contents : Contents (Handle P)) (res : exn + Response P)
| COpen (path : string) (res : option exn)
| CWrite (path : string) (data : string) (res : option exn).

Record World : Type := mkWorld {
  env : Env P;                (* the platform's hidden state *)
  cwd : string;               (* [os.getcwd()] *)
  listing : tree;             (* what [os.scandir] shows below [cwd] *)
  fs : gmap string string;    (* file contents, by the path given to [open] *)
  stdout : list string;       (* one element per [print] call *)
  calls : list Call           (* log of platform calls, oldest first *)
}.

Definition M (A : Type) : Type := World -> result A * World.

Definition ret {A} (a : A) : M A := fun w => (Ret a, w).

Definition bind {A B} (m : M A) (k : A -> M B) : M B := fun w =>
  match m w with
  | (Ret a, w') => k a w'
  | (Raise e, w') => (Raise e, w')
  | (SystemExit c, w') => (SystemExit c, w')
  end.

(** [try: body except Exception as e: handler(e)]. *)
Definition try_except {A} (body : M A) (handler : exn -> M A) : M A := fun w =>
  match body w with
  | (Raise e, w') => handler e w'
  | r => r
  end.

(** [try: body finally: cleanup]. *)
Definition finally {A} (body : M A) (cleanup : M unit) : M A := fun w =>
  match body w with
  | (r, w') =>
      match cleanup w' with
      | (Ret _, w'') => (r, w'')
      | (Raise e, w'') => (Raise e, w'')
      | (SystemExit c, w'') => (SystemExit c, w'')
      end
  end.

Declare Scope prog_scope.
Delimit Scope prog_scope with prog.
Notation "x <- m ;; k" := (bind m (fun x => k))
  (at level 100, m at next level, k at level 200, right associativity) : prog_scope.
Notation "m ;; k" := (bind m (fun _ => k))
  (at level 100, k at level 200, right associativity) : prog_scope.
Local Open Scope prog_scope.

(** [for x in xs: body], threading the loop-carried state. *)
Fixpoint for_each {A S} (xs : list A) (body : A -> S -> M S) (s : S) : M S :=
  match xs with
  | [] => ret s
  | x :: xs' => s' <- body x s ;; for_each xs' body s'
  end.

(** ** Primitive operations

    [print] always succeeds and appends one element to [stdout].  The
    platform calls raise only exceptions derived from [Exception];
    interrupts delivered from outside the program are not modelled. *)

(** [print(s)]. *)
Definition print (s : string) : M unit := fun w =>
  (Ret tt, mkWorld (env w) (cwd w) (listing w) (fs w) (stdout w ++ [s]) (calls w)).

(** The bare [exit()] of the [site] module: raises [SystemExit(None)]. *)
Definition exit {A} : M A := fun w => (SystemExit None, w).

(** [os.getcwd()]. *)
Definition os_getcwd : M string := fun w => (Ret (cwd w), w).

(** [os.walk(top)], reading the listing of the world. *)
Definition os_walk (top : string) : M (list walk_item) := fun w =>
  (Ret (walk top (listing w)), w).

(** [genai.upload_file(path)]. *)
Definition genai_upload_file (path : string) : M (Handle P) := fun w =>
  let '(r, e') := upload_file P path (env w) in
  let w' := mkWorld e' (cwd w) (listing w) (fs w) (stdout w)
                    (calls w ++ [CUpload path r]) in
  match r with
  | inl e => (Raise e, w')
  | inr h => (Ret h, w')
  end.

(** [model.generate_content(contents)]. *)
Definition model_generate_content (contents : Contents (Handle P)) : M (Response P) :=
  fun w =>
  let '(r, e') := generate_content P contents (env w) in
  let w' := mkWorld e' (cwd w) (listing w) (fs w) (stdout w)
                    (calls w ++ [CGenerate contents r]) in
  match r with
  | inl e => (Raise e, w')
  | inr resp => (Ret resp, w')
  end.

(** [open(path, "w", encoding='utf-8')]: creates the file or truncates it
    to nothing, unless the call raises.  The file object is identified
    with its path. *)
Definition open_w (path : string) : M string := fun w =>
  let '(r, e') := open_fault P path (env w) in
  let log := calls w ++ [COpen path r] in
  match r with
  | Some e => (Raise e, mkWorld e' (cwd w) (listing w) (fs w) (stdout w) log)
  | None =>
      (Ret path, mkWorld e' (cwd w) (listing w) (<[path := ""]> (fs w)) (stdout w) log)
  end.

(** [f.write(data)]: the data goes after what the file object has
    written so far, unless the call raises. *)
Definition file_write (f : string) (data : string) : M unit := fun w =>
  let '(r, e') := write_fault P f data (env w) in
  let log := calls w ++ [CWrite f data r] in
  match r with
  | Some e => (Raise e, mkWorld e' (cwd w) (listing w) (fs w) (stdout w) log)
  | None =>
      (Ret tt, mkWorld e' (cwd w) (listing w)
                       (<[f := default "" (fs w !! f) +:+ data]> (fs w)) (stdout w) log)
  end.

(** [f.close()]. *)
Definition file_close (f : string) : M unit := ret tt.

(** [with open(path, "w", ...) as f: body]. *)
Definition with_open_w {A} (path : string) (body : string -> M A) : M A :=
  f <- open_w path ;; finally (body f) (file_close f).

(** ** scan_codebase.py *)

(** The tuple given to [file.endswith]. *)
Definition EXTENSIONS : list string :=
  [".py"; ".js"; ".ts"; ".jsx"; ".tsx"; ".css"; ".html"].

(** Body of the inner [for file in files] loop. *)
Definition upload_one (root file : string) (file_objects : list (Handle P))
  : M (list (Handle P)) :=
  if Str.endswith_any file EXTENSIONS then
    let file_path := Path.join root file in
    try_except
      (uploaded_file <- genai_upload_file file_path ;;
       let file_objects := file_objects ++ [uploaded_file] in
       print ("Uploaded: " +:+ file_path) ;;
       ret file_objects)
      (fun e =>
       print ("Failed to upload " +:+ file_path +:+ ": " +:+ exn_msg e) ;;
       ret file_objects)
  else ret file_objects.

Definition upload_codebase_files (directory : string) : M (list (Handle P)) :=
  let file_objects := [] in
  items <- os_walk directory ;;
  for_each items
    (fun '(root, _, files) file_objects =>
       for_each files (upload_one root) file_objects)
    file_objects.

Definition prompt : string :=
"
Analyze the following uploaded files to identify their structure, key functions, classes, and dependencies. Then, generate documentation in Markdown format, including a README, API documentation, and inline comments where necessary. Ensure the documentation is clear, concise, and follows best practices for [specify your tech stack, e.g., Python, JavaScript, NextJS].
".

Definition no_files_message : string :=
  "No files were uploaded. Please check file extensions or directory.".

(** The module body.  [genai.configure] and the [GenerativeModel]
    constructor only store their arguments and make no platform call. *)
Definition scan_codebase : M unit :=
  current_dir <- os_getcwd ;;
  uploaded_files <- upload_codebase_files current_dir ;;
  (match uploaded_files with
   | [] => print no_files_message ;; exit
   | _ :: _ => ret tt
   end) ;;
  response <- model_generate_content (CList ([PText prompt] ++ map PFile uploaded_files)) ;;
  print (text P response) ;;
  with_open_w "README.md" (fun doc_file => file_write doc_file (text P response)).

(** ** test_gemini.py *)

Definition test_gemini : M unit :=
  response <- model_generate_content (CStr "What is the capital of France?") ;;
  print (text P response).

(** ** Running a script as a process *)

(** What the shell sees: the exit status, and the exception whose
    traceback the interpreter prints to standard error, if any. *)
Record Exit : Type := mkExit { status : Z; traceback : option exn }.

(** The interpreter's top level: falling off the end and [SystemExit(None)]
    both give status 0; an uncaught exception prints its traceback and
    gives status 1. *)
Definition exit_of {A} (r : result A) : Exit :=
  match r with
  | Ret _ => mkExit 0 None
  | SystemExit None => mkExit 0 None
  | SystemExit (Some n) => mkExit n None
  | Raise e => mkExit 1 (Some e)
  end.

Definition run (script : M unit) (w : World) : Exit * World :=
  let r := script w in (exit_of r.1, r.2).

(** ** Reading the world and the log *)

(** The world a fresh process starts in: nothing printed, nothing called. *)
Definition initial (e : Env P) (dir : string) (t : tree) (files : gmap string string)
  : World :=
  mkWorld e dir t files [] [].

(** The upload attempts of a log, oldest first, each with its outcome. *)
Fixpoint uploads (log : list Call) : list (string * (exn + Handle P)) :=
  match log with
  | [] => []
  | CUpload path r :: log' => (path, r) :: uploads log'
  | _ :: log' => uploads log'
  end.

(** The generation calls of a log, oldest first. *)
Fixpoint generations (log : list Call)
  : list (Contents (Handle P) * (exn + Response P)) :=
  match log with
  | [] => []
  | CGenerate c r :: log' => (c, r) :: generations log'
  | _ :: log' => generations log'
  end.

(** The file-system calls of a log ([open] and [write]), oldest first. *)
Fixpoint file_calls (log : list Call) : list Call :=
  match log with
  | [] => []
  | COpen path r :: log' => COpen path r :: file_calls log'
  | CWrite f d r :: log' => CWrite f d r :: file_calls log'
  | _ :: log' => file_calls log'
  end.

(** The handles of the uploads that succeeded, in order. *)
Fixpoint successes (ups : list (string * (exn + Handle P))) : list (Handle P) :=
  match ups with
  | [] => []
  | (_, inr h) :: ups' => h :: successes ups'
  | (_, inl _) :: ups' => successes ups'
  end.

(** The line the walk prints for one upload attempt. *)
Definition report (u : string * (exn + Handle P)) : string :=
  match u with
  | (path, inr _) => "Uploaded: " +:+ path
  | (path, inl e) => "Failed to upload " +:+ path +:+ ": " +:+ exn_msg e
  end.

Definition as_call (u : string * (exn + Handle P)) : Call :=
  CUpload (fst u) (snd u).

(** ** The files of a tree, read off its structure *)

Definition allowed (name : string) : bool := Str.endswith_any name EXTENSIONS.

(** Every non-directory entry below [top], as (directory path, name). *)
Fixpoint entry_files (top : string) (e : entry) : list (string * string) :=
  match e with
  | File name => [(top, name)]
  | Folder name children => flat_map (entry_files (Path.join top name)) children
  end.

Definition tree_files (top : string) (t : tree) : list (string * string) :=
  flat_map (entry_files top) t.

(** The paths the walk selects for upload, in visiting order. *)
Definition item_candidates (it : walk_item) : list string :=
  match it with
  | (root, _, files) =>
      map (Path.join root) (List.filter allowed files)
  end.

Definition candidates (top : string) (t : tree) : list string :=
  flat_map item_candidates (walk top t).

(** The platform's answers to a sequence of uploads, threading its state. *)
Fixpoint upload_all (paths : list string) (e : Env P)
  : list (string * (exn + Handle P)) * Env P :=
  match paths with
  | [] => ([], e)
  | path :: paths' =>
      let '(r, e1) := upload_file P path e in
      let '(rs, e2) := upload_all paths' e1 in
      ((path, r) :: rs, e2)
  end.

(** The world after a batch of upload attempts [rs] that left the
    platform in state [e]. *)
Definition advance (w : World) (e : Env P) (rs : list (string * (exn + Handle P)))
  : World :=
  mkWorld e (cwd w) (listing w) (fs w)
          (stdout w ++ map report rs) (calls w ++ map as_call rs).

(** The selected paths of a list of (directory, name) pairs. *)
Definition selected (fl : list (string * string)) : list string :=
  map (fun rn => Path.join (fst rn) (snd rn))
      (List.filter (fun rn => allowed (snd rn)) fl).

(** The exception a failed generation, [open] or [write] call raised. *)
Definition failed (c : Call) : option exn :=
  match c with
  | CGenerate _ (inl e) => Some e
  | COpen _ (Some e) => Some e
  | CWrite _ _ (Some e) => Some e
  | _ => None
  end.

(** What the rest of the script does once [hs], a non-empty list of
    handles, has been collected: the outcome of the generation call, of
    opening the output file and of writing it, spelled out case by case. *)
Definition documented (hs : list (Handle P)) (w : World) : result unit * World :=
  let contents := CList (PText prompt :: map PFile hs) in
  let g := generate_content P contents (env w) in
  match g.1 with
  | inl ex =>
      (Raise ex,
       mkWorld g.2 (cwd w) (listing w) (fs w) (stdout w)
               (calls w ++ [CGenerate contents g.1]))
  | inr resp =>
      let o := open_fault P "README.md" g.2 in
      match o.1 with
      | Some ex =>
          (Raise ex,
           mkWorld o.2 (cwd w) (listing w) (fs w) (stdout w ++ [text P resp])
                   (calls w ++ [CGenerate contents g.1; COpen "README.md" o.1]))
      | None =>
          let wr := write_fault P "README.md" (text P resp) o.2 in
          let log := calls w ++ [CGenerate contents g.1; COpen "README.md" o.1;
                                 CWrite "README.md" (text P resp) wr.1] in
          match wr.1 with
          | Some ex =>
              (Raise ex,
               mkWorld wr.2 (cwd w) (listing w) (<["README.md" := ""]> (fs w))
                       (stdout w ++ [text P resp]) log)
          | None =>
              (Ret tt,
               mkWorld wr.2 (cwd w) (listing w)
                       (<["README.md" := text P resp]> (fs w))
                       (stdout w ++ [text P resp]) log)
          end
      end
  end.

(** The path a file-system call works on. *)
Definition touches (c : Call) : option string :=
  match c with
  | COpen path _ => Some path
  | CWrite path _ _ => Some path
  | _ => None
  end.


(** No name in the tree starts with the separator, as for any listing a
    file system gives. *)
Fixpoint entry_well_named (e : entry) : bool :=
  match e with
  | File name => negb (Str.startswith name Path.sep)
  | Folder name children =>
      negb (Str.startswith name Path.sep) && forallb entry_well_named children
  end.

Definition well_named (t : tree) : bool := forallb entry_well_named t.

(* ===================================================================== *)
(** * Facts about strings and paths                                       *)
(* ===================================================================== *)

Lemma string_app_assoc (a b c : string) : (a +:+ b) +:+ c = a +:+ (b +:+ c).
Proof.
  induction a as [|x a IH]; [reflexivity|].
  change (String x ((a +:+ b) +:+ c) = String x (a +:+ (b +:+ c))).
  now rewrite IH.
Qed.

Lemma endswith_refl (s : string) : Str.endswith s s = true.
Proof. destruct s; cbn [Str.endswith]; now rewrite String.eqb_refl. Qed.

(** [endswith] is "is a suffix of". *)
Lemma endswith_spec (s suffix : string) :
  Str.endswith s suffix = true <-> exists p, s = p +:+ suffix.
Proof.
  split.
  - induction s as [|c s IH]; cbn [Str.endswith]; intros H.
    + apply orb_true_iff in H as [H | H]; [|discriminate].
      apply String.eqb_eq in H. exists "". now subst.
    + apply orb_true_iff in H as [H | H].
      * apply String.eqb_eq in H. exists "". now subst.
      * destruct (IH H) as [p ->]. now exists (String c p).
  - intros [p ->]. induction p as [|c p IH].
    + apply endswith_refl.
    + change (String c p +:+ suffix) with (String c (p +:+ suffix)).
      cbn [Str.endswith]. rewrite IH. apply orb_true_r.
Qed.

Lemma has_char_app (c : ascii) (p s : string) :
  Str.has_char c (p +:+ String c s) = true.
Proof.
  induction p as [|d p IH].
  - change ("" +:+ String c s) with (String c s).
    cbn [Str.has_char]. now rewrite Ascii.eqb_refl.
  - change (String d p +:+ String c s) with (String d (p +:+ String c s)).
    cbn [Str.has_char]. rewrite IH. apply orb_true_r.
Qed.

Lemma eqb_through_char (c : ascii) (p s ext : string) :
  Str.has_char c ext = false -> String.eqb (p +:+ String c s) ext = false.
Proof.
  intros H. destruct (String.eqb_spec (p +:+ String c s) ext) as [E|]; [|reflexivity].
  rewrite <- E, has_char_app in H. discriminate.
Qed.

(** A suffix that does not contain [c] cannot reach across a [c]. *)
Lemma endswith_through_char (c : ascii) (p s ext : string) :
  Str.has_char c ext = false ->
  Str.endswith (p +:+ String c s) ext = Str.endswith s ext.
Proof.
  intros H. induction p as [|d p IH].
  - pose proof (eqb_through_char c "" s ext H) as E.
    change ("" +:+ String c s) with (String c s) in *.
    cbn [Str.endswith]. now rewrite E.
  - pose proof (eqb_through_char c (String d p) s ext H) as E.
    change (String d p +:+ String c s) with (String d (p +:+ String c s)) in *.
    cbn [Str.endswith]. now rewrite E, IH.
Qed.

(** Joining a directory in front does not change which suffixes without
    a separator the name has. *)
Lemma endswith_join (a b ext : string) :
  Str.has_char "/" ext = false ->
  Str.endswith (Path.join a b) ext = Str.endswith b ext.
Proof.
  intros H. unfold Path.join.
  destruct (Str.startswith b Path.sep || String.eqb a ""); [reflexivity|].
  destruct (Str.endswith a Path.sep) eqn:E.
  - apply endswith_spec in E as [a' ->]. unfold Path.sep.
    rewrite string_app_assoc.
    change ("/" +:+ b) with (String "/" b).
    now apply endswith_through_char.
  - unfold Path.sep. change ("/" +:+ b) with (String "/" b).
    now apply endswith_through_char.
Qed.

Lemma allowed_join (a b : string) : allowed (Path.join a b) = allowed b.
Proof.
  unfold allowed, Str.endswith_any, EXTENSIONS. cbn [existsb].
  now rewrite !endswith_join by reflexivity.
Qed.

(* ===================================================================== *)
(** * Facts about the walk                                                *)
(* ===================================================================== *)

(** Induction over entries that reaches into the children of a folder. *)
Lemma entry_nested_ind (Q : entry -> Prop) :
  (forall name, Q (File name)) ->
  (forall name children, Forall Q children -> Q (Folder name children)) ->
  forall e, Q e.
Proof.
  intros HF HD. fix IH 1. intros [name | name children].
  - apply HF.
  - apply HD. induction children as [|c cs IHcs]; constructor.
    + apply IH.
    + apply IHcs.
Qed.

Lemma selected_app (a b : list (string * string)) :
  selected (a ++ b) = selected a ++ selected b.
Proof. unfold selected. now rewrite List.filter_app, map_app. Qed.

(** The candidates of one listing and of everything below it. *)
Definition listing_candidates (top : string) (es : list entry) : list string :=
  item_candidates (top, dirnames es, filenames es)
  ++ flat_map item_candidates (flat_map (walk_entry top) es).

Lemma candidates_unfold (top : string) (t : tree) :
  candidates top t = listing_candidates top t.
Proof. reflexivity. Qed.

Definition folder_ok (e : entry) : Prop :=
  match e with
  | File _ => True
  | Folder name children =>
      forall top,
        Permutation (listing_candidates (Path.join top name) children)
                    (selected (tree_files (Path.join top name) children))
  end.

Lemma listing_perm_from (es : list entry) :
  Forall folder_ok es ->
  forall top, Permutation (listing_candidates top es) (selected (tree_files top es)).
Proof.
  induction 1 as [|e es He Hes IH]; intros top.
  - constructor.
  - specialize (IH top). unfold listing_candidates in *.
    destruct e as [name | name children].
    + unfold tree_files in *. cbn [flat_map entry_files walk_entry app].
      change ((top, name) :: flat_map (entry_files top) es)
        with ([(top, name)] ++ flat_map (entry_files top) es).
      rewrite selected_app.
      unfold filenames, item_candidates in *.
      cbn [List.filter is_dir negb map entry_name].
      unfold selected at 1. cbn [List.filter snd fst map].
      destruct (allowed name); cbn [List.filter map app fst snd].
      * now constructor.
      * exact IH.
    + specialize (He top). unfold listing_candidates in He.
      unfold tree_files in *. cbn [flat_map entry_files walk_entry].
      rewrite selected_app.
      unfold filenames, dirnames, item_candidates in *.
      cbn [List.filter is_dir negb map].
      rewrite flat_map_app. cbn [flat_map].
      rewrite He, <- IH. apply Permutation_app_swap_app.
Qed.

Lemma folder_ok_all (e : entry) : folder_ok e.
Proof.
  induction e as [name | name children IH] using entry_nested_ind.
  - exact I.
  - intros top. now apply listing_perm_from.
Qed.

(** The walk selects every allowed file of the tree exactly once. *)
Lemma candidates_perm (top : string) (t : tree) :
  Permutation (candidates top t) (selected (tree_files top t)).
Proof.
  rewrite candidates_unfold. apply listing_perm_from.
  apply Forall_forall. intros e _. apply folder_ok_all.
Qed.

(** Every selected path ends in an allowed extension. *)
Lemma selected_allowed (fl : list (string * string)) (path : string) :
  In path (selected fl) -> allowed path = true.
Proof.
  unfold selected. rewrite in_map_iff. intros [[r n] [<- H]].
  apply List.filter_In in H as [_ H]. cbn [fst snd] in *.
  now rewrite allowed_join.
Qed.

Lemma candidates_allowed (top : string) (t : tree) (path : string) :
  In path (candidates top t) -> allowed path = true.
Proof.
  intros H. apply (selected_allowed (tree_files top t)).
  now apply (Permutation_in _ (candidates_perm top t)).
Qed.

(* ===================================================================== *)
(** * What the walk computes                                              *)
(* ===================================================================== *)

Lemma advance_nil (w : World) : advance w (env w) [] = w.
Proof. destruct w. unfold advance. cbn. now rewrite !app_nil_r. Qed.

Lemma advance_advance (w : World) e1 rs1 e2 rs2 :
  advance (advance w e1 rs1) e2 rs2 = advance w e2 (rs1 ++ rs2).
Proof. unfold advance. cbn. now rewrite !map_app, !app_assoc. Qed.

Lemma successes_app (a b : list (string * (exn + Handle P))) :
  successes (a ++ b) = successes a ++ successes b.
Proof.
  induction a as [|[path [e|h]] a IH]; cbn; [reflexivity | exact IH | now rewrite IH].
Qed.

Lemma upload_all_app (l1 l2 : list string) (e : Env P) :
  upload_all (l1 ++ l2) e =
  ((upload_all l1 e).1 ++ (upload_all l2 (upload_all l1 e).2).1,
   (upload_all l2 (upload_all l1 e).2).2).
Proof.
  revert e. induction l1 as [|path l1 IH]; intros e; cbn.
  - now destruct (upload_all l2 e).
  - destruct (upload_file P path e) as [r e1]. rewrite IH.
    destruct (upload_all l1 e1) as [rs1 e2]. cbn.
    now destruct (upload_all l2 e2).
Qed.

Lemma uploads_as_calls (rs : list (string * (exn + Handle P))) :
  uploads (map as_call rs) = rs.
Proof. induction rs as [|[path r] rs IH]; cbn; [reflexivity | now rewrite IH]. Qed.

Lemma generations_as_calls (rs : list (string * (exn + Handle P))) :
  generations (map as_call rs) = [].
Proof. induction rs as [|[path r] rs IH]; cbn; [reflexivity | exact IH]. Qed.

Lemma file_calls_as_calls (rs : list (string * (exn + Handle P))) :
  file_calls (map as_call rs) = [].
Proof. induction rs as [|[path r] rs IH]; cbn; [reflexivity | exact IH]. Qed.

Lemma uploads_app (a b : list Call) : uploads (a ++ b) = uploads a ++ uploads b.
Proof. induction a as [|[] a IH]; cbn; [reflexivity | now rewrite IH | exact IH ..]. Qed.

Lemma generations_app (a b : list Call) :
  generations (a ++ b) = generations a ++ generations b.
Proof. induction a as [|[] a IH]; cbn; try reflexivity; try exact IH; now rewrite IH. Qed.

Lemma file_calls_app (a b : list Call) :
  file_calls (a ++ b) = file_calls a ++ file_calls b.
Proof. induction a as [|[] a IH]; cbn; try reflexivity; try exact IH; now rewrite IH. Qed.

Lemma upload_all_paths (paths : list string) (e : Env P) :
  map fst (upload_all paths e).1 = paths.
Proof.
  revert e. induction paths as [|path paths IH]; intros e; cbn; [reflexivity|].
  destruct (upload_file P path e) as [r e1]. specialize (IH e1).
  destruct (upload_all paths e1) as [rs e2]. cbn in *. now rewrite IH.
Qed.

(** One pass of the inner loop body. *)
Lemma upload_one_eq (root file : string) (acc : list (Handle P)) (w : World) :
  upload_one root file acc w =
  let rs := (upload_all (item_candidates (root, [], [file])) (env w)) in
  (Ret (acc ++ successes rs.1), advance w rs.2 rs.1).
Proof.
  unfold upload_one, item_candidates. cbn [List.filter map].
  fold (allowed file). destruct (allowed file); cbn [map upload_all].
  - unfold try_except, bind, genai_upload_file, print, ret, advance.
    destruct (upload_file P (Path.join root file) (env w)) as [[ex | h] e1]; cbn.
    + now rewrite app_nil_r.
    + reflexivity.
  - cbn. unfold ret. now rewrite app_nil_r, advance_nil.
Qed.

(** The inner loop over the files of one directory. *)
Lemma for_files_eq (root : string) (dirs files : list string)
      (acc : list (Handle P)) (w : World) :
  for_each files (upload_one root) acc w =
  let rs := upload_all (item_candidates (root, dirs, files)) (env w) in
  (Ret (acc ++ successes rs.1), advance w rs.2 rs.1).
Proof.
  revert acc w. induction files as [|file files IH]; intros acc w.
  - cbn. unfold ret. now rewrite app_nil_r, advance_nil.
  - cbn [for_each]. unfold bind. rewrite upload_one_eq. cbv beta iota zeta. rewrite IH.
    unfold item_candidates. cbn [List.filter].
    destruct (allowed file); cbn [map app upload_all].
    + destruct (upload_file P (Path.join root file) (env w)) as [r e1].
      cbn [advance env fst snd].
      destruct (upload_all (map (Path.join root) (List.filter allowed files)) e1)
        as [rs e2].
      cbn [fst snd]. rewrite advance_advance, <- app_assoc, <- successes_app.
      reflexivity.
    + cbn [fst snd successes]. rewrite app_nil_r, advance_nil. reflexivity.
Qed.

(** The outer loop over the items of the walk. *)
Lemma for_items_eq (items : list walk_item) (acc : list (Handle P)) (w : World) :
  for_each items
    (fun '(root, _, files) file_objects =>
       for_each files (upload_one root) file_objects) acc w =
  let rs := upload_all (flat_map item_candidates items) (env w) in
  (Ret (acc ++ successes rs.1), advance w rs.2 rs.1).
Proof.
  revert acc w. induction items as [|[[root dirs] files] items IH]; intros acc w.
  - cbn. unfold ret. now rewrite app_nil_r, advance_nil.
  - cbn [for_each flat_map]. unfold bind.
    rewrite (for_files_eq root dirs files). cbv beta iota zeta. rewrite IH.
    rewrite upload_all_app. cbn [fst snd advance env].
    rewrite advance_advance, <- app_assoc, <- successes_app. reflexivity.
Qed.

(** [upload_codebase_files] always returns: with the handles of the
    successful uploads of the candidates, in visiting order. *)
Lemma upload_codebase_files_eq (directory : string) (w : World) :
  upload_codebase_files directory w =
  let rs := upload_all (candidates directory (listing w)) (env w) in
  (Ret (successes rs.1), advance w rs.2 rs.1).
Proof.
  unfold upload_codebase_files, bind, os_walk. now rewrite for_items_eq.
Qed.

(* ===================================================================== *)
(** * What the scripts compute                                            *)
(* ===================================================================== *)

(** The documentation generator, case by case. *)
Lemma scan_codebase_eq (w : World) :
  scan_codebase w =
  let rs := upload_all (candidates (cwd w) (listing w)) (env w) in
  match successes rs.1 with
  | [] =>
      (SystemExit None,
       mkWorld rs.2 (cwd w) (listing w) (fs w)
               ((stdout w ++ map report rs.1) ++ [no_files_message])
               (calls w ++ map as_call rs.1))
  | h :: hs => documented (h :: hs) (advance w rs.2 rs.1)
  end.
Proof.
  unfold scan_codebase. unfold bind at 1. unfold os_getcwd.
  unfold bind at 1. rewrite upload_codebase_files_eq. cbv beta iota zeta.
  destruct (upload_all (candidates (cwd w) (listing w)) (env w)) as [rs e1].
  cbn [fst snd]. destruct (successes rs) as [|h hs] eqn:Hs.
  - reflexivity.
  - set (w1 := advance w e1 rs).
    unfold documented, with_open_w, bind, model_generate_content, print,
      open_w, finally, file_write, file_close, ret.
    cbn [app].
    destruct (generate_content P (CList (PText prompt :: map PFile (h :: hs))) (env w1))
      as [[ex | resp] e2]; cbn [fst snd env cwd listing fs stdout calls].
    + reflexivity.
    + destruct (open_fault P "README.md" e2) as [[ex | ] e3];
        cbn [fst snd env cwd listing fs stdout calls].
      * now rewrite <- app_assoc.
      * destruct (write_fault P "README.md" (text P resp) e3) as [[ex | ] e4];
          cbn [fst snd env cwd listing fs stdout calls].
        -- now rewrite <- !app_assoc.
        -- rewrite lookup_insert_eq, insert_insert_eq. cbn [default].
           now rewrite <- !app_assoc.
Qed.

(** The connectivity check, case by case. *)
Lemma test_gemini_eq (w : World) :
  test_gemini w =
  let contents := CStr "What is the capital of France?" in
  let g := generate_content P contents (env w) in
  let log := calls w ++ [CGenerate contents g.1] in
  match g.1 with
  | inl ex => (Raise ex, mkWorld g.2 (cwd w) (listing w) (fs w) (stdout w) log)
  | inr resp =>
      (Ret tt, mkWorld g.2 (cwd w) (listing w) (fs w) (stdout w ++ [text P resp]) log)
  end.
Proof.
  unfold test_gemini, bind, model_generate_content, print.
  destruct (generate_content P (CStr "What is the capital of France?") (env w))
    as [[ex | resp] e1]; reflexivity.
Qed.

Lemma successes_nil_iff (ups : list (string * (exn + Handle P))) :
  successes ups = [] <-> forall path h, ~ In (path, inr h) ups.
Proof.
  induction ups as [|[p [ex | h]] ups IH]; cbn.
  - split; [intros _ ? ? [] | reflexivity].
  - rewrite IH. split.
    + intros H path h [E | Hin]; [discriminate | exact (H path h Hin)].
    + intros H path h Hin. apply (H path h). now right.
  - split; [discriminate|]. intros H. exfalso. apply (H p h). now left.
Qed.

Lemma walk_uploads_log e dir t files directory :
  uploads (calls (upload_codebase_files directory (initial e dir t files)).2)
  = (upload_all (candidates directory t) e).1.
Proof.
  rewrite upload_codebase_files_eq. cbn. apply uploads_as_calls.
Qed.

(** Unfold a run of the generator from a fresh world into its cases. *)
Ltac scan_cases e dir t files :=
  rewrite ?scan_codebase_eq; unfold initial, documented;
  cbn [env cwd listing fs stdout calls advance app];
  let rs := fresh "rs" in let e1 := fresh "e1" in
  destruct (upload_all (candidates dir t) e) as [rs e1] eqn:Hall;
  cbn [fst snd];
  let h := fresh "h" in let hs := fresh "hs" in
  destruct (successes rs) as [|h hs] eqn:Hsucc;
  [ | cbn [env cwd listing fs stdout calls advance app];
      let ex := fresh "ex" in let resp := fresh "resp" in let e2 := fresh "e2" in
      destruct (generate_content P (CList (PText prompt :: map PFile (h :: hs))) e1)
        as [[ex | resp] e2] eqn:Hgen; cbn [fst snd];
      [ | let e3 := fresh "e3" in
          destruct (open_fault P "README.md" e2) as [[ex | ] e3] eqn:Hopen;
          cbn [fst snd];
          [ | let e4 := fresh "e4" in
              destruct (write_fault P "README.md" (text P resp) e3)
                as [[ex | ] e4] eqn:Hwrite; cbn [fst snd] ] ] ];
  cbn [fst snd env cwd listing fs stdout calls];
  rewrite ?uploads_app, ?generations_app, ?file_calls_app,
    ?uploads_as_calls, ?generations_as_calls, ?file_calls_as_calls;
  cbn [uploads generations file_calls app]; rewrite ?app_nil_r.

Lemma scan_uploads_log e dir t files :
  uploads (calls (scan_codebase (initial e dir t files)).2)
  = (upload_all (candidates dir t) e).1.
Proof. scan_cases e dir t files; reflexivity. Qed.

(* ===================================================================== *)
(** * The documentation generator                                         *)
(* ===================================================================== *)

(** C1.  In a run in which at least one upload succeeds, the uploads are
    attempted in the order of the walk, exactly one generation call is
    issued, and what it carries after the prompt is exactly the handles
    of the successful uploads, in that order. *)
Theorem one_generation_with_successful_handles
        (e : Env P) (dir : string) (t : tree) (files : gmap string string) :
  let r := scan_codebase (initial e dir t files) in
  let ups := uploads (calls r.2) in
  (exists path h, In (path, inr h) ups) ->
  map fst ups = candidates dir t /\
  exists answer,
    generations (calls r.2)
    = [(CList ([PText prompt] ++ map PFile (successes ups)), answer)].
Proof.
  intros r ups [path [h Hin]]. subst ups r.
  rewrite scan_uploads_log in *.
  split; [apply upload_all_paths|].
  revert Hin. scan_cases e dir t files; intros Hin.
  - exfalso. exact (proj1 (successes_nil_iff rs) Hsucc _ _ Hin).
  - rewrite <- Hsucc. eexists; reflexivity.
  - rewrite <- Hsucc. eexists; reflexivity.
  - rewrite <- Hsucc. eexists; reflexivity.
  - rewrite <- Hsucc. eexists; reflexivity.
Qed.

(** C2.  In a run in which no upload succeeds, no generation call is
    issued, no file is opened or written and the file store is what it
    was; the diagnostic is the last thing printed and the script leaves
    through [exit()]. *)
Theorem no_upload_no_generation
        (e : Env P) (dir : string) (t : tree) (files : gmap string string) :
  let r := scan_codebase (initial e dir t files) in
  let ups := uploads (calls r.2) in
  (forall path h, ~ In (path, inr h) ups) ->
  r.1 = SystemExit None /\
  generations (calls r.2) = [] /\
  file_calls (calls r.2) = [] /\
  fs r.2 = files /\
  stdout r.2 = map report ups ++ [no_files_message].
Proof.
  intros r ups Hnone. subst ups r.
  rewrite scan_uploads_log in *. apply (proj2 (successes_nil_iff _)) in Hnone.
  revert Hnone. scan_cases e dir t files; intros Hnone; try congruence.
  repeat split.
Qed.

(** C3.  The walk attempts one upload for every file of the tree whose
    name ends in an allowed extension, so as many attempts as there are
    such files, and none for a file with another name. *)
Theorem walk_attempts_exactly_allowed
        (e : Env P) (dir : string) (t : tree) (files : gmap string string)
        (directory : string) :
  let r := upload_codebase_files directory (initial e dir t files) in
  let attempts := map fst (uploads (calls r.2)) in
  let matching := List.filter (fun rn => allowed rn.2) (tree_files directory t) in
  let others := List.filter (fun rn => negb (allowed rn.2)) (tree_files directory t) in
  length attempts = length matching /\
  Permutation attempts (map (fun rn => Path.join rn.1 rn.2) matching) /\
  Forall (fun rn => ~ In (Path.join rn.1 rn.2) attempts) others.
Proof.
  intros r attempts matching others. subst attempts r.
  rewrite walk_uploads_log, upload_all_paths.
  pose proof (candidates_perm directory t) as Hperm.
  split; [|split].
  - rewrite (Permutation_length Hperm). unfold selected. now rewrite length_map.
  - exact Hperm.
  - apply List.Forall_forall. intros [root name] Hin Hatt.
    apply List.filter_In in Hin as [_ Hno]. cbn [fst snd] in *.
    apply candidates_allowed in Hatt. rewrite allowed_join in Hatt.
    rewrite Hatt in Hno. discriminate.
Qed.

Lemma successes_shorter (ups : list (string * (exn + Handle P))) path ex :
  In (path, inl ex) ups -> length (successes ups) < length ups.
Proof.
  assert (Hle : forall l : list (string * (exn + Handle P)),
             length (successes l) <= length l).
  { induction l as [|[p [x | h]] l IH]; cbn; lia. }
  induction ups as [|[p [x | h]] ups IH]; cbn; intros Hin.
  - destruct Hin.
  - specialize (Hle ups). lia.
  - destruct Hin as [Heq | Hin]; [discriminate|]. specialize (IH Hin). lia.
Qed.

(** C4.  When the upload of a file fails, the walk still returns
    normally, having printed the line with the path and the message for
    it, having attempted every candidate of the walk, and with the
    handles of the successful uploads only. *)
Theorem failed_upload_is_reported_and_skipped
        (e : Env P) (dir : string) (t : tree) (files : gmap string string)
        (directory : string) :
  let r := upload_codebase_files directory (initial e dir t files) in
  let ups := uploads (calls r.2) in
  forall path ex,
    In (path, inl ex) ups ->
    r.1 = Ret (successes ups) /\
    In ("Failed to upload " +:+ path +:+ ": " +:+ exn_msg ex) (stdout r.2) /\
    stdout r.2 = map report ups /\
    map fst ups = candidates directory t /\
    length (successes ups) < length ups.
Proof.
  intros r ups path ex Hin. subst ups r.
  rewrite walk_uploads_log in *.
  rewrite upload_codebase_files_eq. cbn [fst snd initial advance stdout env listing app].
  repeat split.
  - apply in_map_iff. exists (path, inl ex). split; [reflexivity | exact Hin].
  - apply upload_all_paths.
  - exact (successes_shorter _ _ _ Hin).
Qed.

(** C5.  After a run that completes normally, the file store differs
    from the one before only at [README.md], which holds exactly the
    text of the response of the one generation call, whatever it held
    before. *)
Theorem readme_is_overwritten
        (e : Env P) (dir : string) (t : tree) (files : gmap string string) :
  let r := scan_codebase (initial e dir t files) in
  r.1 = Ret tt ->
  exists contents resp,
    generations (calls r.2) = [(contents, inr resp)] /\
    fs r.2 = <["README.md" := text P resp]> files /\
    fs r.2 !! "README.md" = Some (text P resp).
Proof.
  intros r. subst r. scan_cases e dir t files; intros H; try discriminate.
  eexists _, resp. repeat split. apply lookup_insert_eq.
Qed.

Lemma failed_as_call (rs : list (string * (exn + Handle P))) (c : Call) :
  In c (map as_call rs) -> failed c = None.
Proof. rewrite in_map_iff. now intros [[path r] [<- _]]. Qed.

(** C7.  When the generation call, the [open] or the [write] raises, the
    script ends with that exception uncaught: the interpreter reports it
    with status 1, the failed call is the last call the run made, and
    the run made one generation call. *)
Theorem generation_and_write_failures_propagate
        (e : Env P) (dir : string) (t : tree) (files : gmap string string) :
  let r := scan_codebase (initial e dir t files) in
  forall c ex,
    In c (calls r.2) -> failed c = Some ex ->
    r.1 = Raise ex /\
    (run scan_codebase (initial e dir t files)).1 = mkExit 1 (Some ex) /\
    last (calls r.2) = Some c /\
    length (generations (calls r.2)) = 1.
Proof.
  intros r c ex. subst r. unfold run. cbn [fst snd].
  scan_cases e dir t files; intros Hin Hfail;
    repeat (apply in_app_or in Hin as [Hin | Hin];
            [apply failed_as_call in Hin; congruence|]);
    try (apply failed_as_call in Hin; congruence);
    cbn [In] in Hin;
    repeat (destruct Hin as [<- | Hin]; try (cbn in Hfail; congruence));
    try destruct Hin;
    cbn in Hfail; injection Hfail as <-;
    rewrite last_app; cbn; repeat split.
Qed.

(** C8.  When no upload succeeds the script leaves through the bare
    [exit()], which the interpreter turns into status 0 with no
    traceback: the same exit as that of any run that completes
    normally. *)
Theorem early_exit_has_status_zero
        (e : Env P) (dir : string) (t : tree) (files : gmap string string) :
  let r := scan_codebase (initial e dir t files) in
  (forall path h, ~ In (path, inr h) (uploads (calls r.2))) ->
  r.1 = SystemExit None /\
  status (run scan_codebase (initial e dir t files)).1 = 0%Z /\
  forall w, (scan_codebase w).1 = Ret tt ->
            (run scan_codebase w).1 = (run scan_codebase (initial e dir t files)).1.
Proof.
  intros r Hnone. subst r.
  rewrite scan_uploads_log in Hnone. apply (proj2 (successes_nil_iff _)) in Hnone.
  assert (Hexit : (scan_codebase (initial e dir t files)).1 = SystemExit None).
  { revert Hnone. scan_cases e dir t files; intros Hnone; congruence. }
  unfold run. cbn [fst]. rewrite Hexit. repeat split.
  intros w Hw. now rewrite Hw.
Qed.

(** C9.  [README.md] does not pass the extension filter, and in no run,
    whatever the tree holds, is an upload attempted for a file of that
    name in any directory. *)
Theorem readme_is_never_uploaded
        (e : Env P) (dir : string) (t : tree) (files : gmap string string) :
  let r := scan_codebase (initial e dir t files) in
  allowed "README.md" = false /\
  forall root, ~ In (Path.join root "README.md") (map fst (uploads (calls r.2))).
Proof.
  intros r. subst r. split; [reflexivity|].
  intros root Hin. rewrite scan_uploads_log, upload_all_paths in Hin.
  apply candidates_allowed in Hin. rewrite allowed_join in Hin. discriminate.
Qed.

(** C10.  The filter compares the exact characters: for a name that
    would pass once lowered but does not pass as written, no upload is
    attempted in any directory, while the lowered name is attempted
    wherever the walk meets it. *)
Theorem extension_filter_is_case_sensitive
        (e : Env P) (dir : string) (t : tree) (files : gmap string string)
        (name : string) :
  let r := scan_codebase (initial e dir t files) in
  let attempts := map fst (uploads (calls r.2)) in
  allowed (Str.lower name) = true ->
  allowed name = false ->
  (forall root, ~ In (Path.join root name) attempts) /\
  (forall root dirs names,
      In (root, dirs, names) (walk dir t) -> In (Str.lower name) names ->
      In (Path.join root (Str.lower name)) attempts).
Proof.
  intros r attempts Hlow Hexact. subst attempts r.
  rewrite scan_uploads_log, upload_all_paths. split.
  - intros root Hin. apply candidates_allowed in Hin.
    rewrite allowed_join in Hin. congruence.
  - intros root dirs names Hitem Hname. unfold candidates.
    apply in_flat_map. exists (root, dirs, names). split; [exact Hitem|].
    cbn [item_candidates]. apply in_map, List.filter_In. now split.
Qed.

(* ===================================================================== *)
(** * The connectivity check                                              *)
(* ===================================================================== *)

(** C6.  A run of the connectivity check makes exactly one platform
    call, the generation request with the literal prompt; when the
    request is answered it prints exactly the text of the answer and
    ends normally, and when the request raises it prints nothing. *)
Theorem test_gemini_one_request
        (e : Env P) (dir : string) (t : tree) (files : gmap string string) :
  let r := test_gemini (initial e dir t files) in
  let g := generate_content P (CStr "What is the capital of France?") e in
  calls r.2 = [CGenerate (CStr "What is the capital of France?") g.1] /\
  stdout r.2 = match g.1 with inr resp => [text P resp] | inl _ => [] end /\
  r.1 = match g.1 with inr _ => Ret tt | inl ex => Raise ex end /\
  fs r.2 = files.
Proof.
  intros r g. subst r g. rewrite test_gemini_eq. unfold initial.
  cbn [env cwd listing fs stdout calls app].
  destruct (generate_content P (CStr "What is the capital of France?") e)
    as [[ex | resp] e1]; cbn; repeat split.
Qed.

(* ===================================================================== *)
(** * Further properties of the walk                                      *)
(* ===================================================================== *)

(** X1.  From any world, [upload_codebase_files] returns normally; it
    adds to the log only upload calls, prints one line per call, and
    leaves the file store, the working directory and the listing as
    they were. *)
Theorem walk_only_uploads (directory : string) (w : World) :
  let r := upload_codebase_files directory w in
  exists hs new lines,
    r.1 = Ret hs /\
    calls r.2 = calls w ++ new /\
    generations new = [] /\ file_calls new = [] /\
    stdout r.2 = stdout w ++ lines /\ length lines = length new /\
    length hs <= length new /\
    fs r.2 = fs w /\ cwd r.2 = cwd w /\ listing r.2 = listing w.
Proof.
  intros r. subst r. rewrite upload_codebase_files_eq. cbn [fst snd advance].
  set (rs := (upload_all (candidates directory (listing w)) (env w)).1).
  exists (successes rs), (map as_call rs), (map report rs).
  cbn [calls stdout fs cwd listing].
  rewrite generations_as_calls, file_calls_as_calls, !length_map.
  repeat split.
  clear. induction rs as [|[p [x | h]] rs IH]; cbn; lia.
Qed.

(** X2.  A name passes the filter exactly when it is some stem, possibly
    empty, followed by one of the seven extensions. *)
Theorem allowed_iff_suffix (name : string) :
  allowed name = true <->
  exists stem ext, In ext EXTENSIONS /\ name = stem +:+ ext.
Proof.
  unfold allowed, Str.endswith_any. rewrite existsb_exists. split.
  - intros [ext [Hin Hend]]. apply endswith_spec in Hend as [stem ->].
    now exists stem, ext.
  - intros [stem [ext [Hin ->]]]. exists ext. split; [exact Hin|].
    apply endswith_spec. now exists stem.
Qed.

Lemma selected_none (fl : list (string * string)) :
  forallb (fun rn => negb (allowed rn.2)) fl = true -> selected fl = [].
Proof.
  unfold selected.
  induction fl as [|[r n] fl IH]; cbn [forallb List.filter map fst snd];
    [reflexivity|].
  intros H. apply andb_true_iff in H as [Hn Hfl].
  apply negb_true_iff in Hn. rewrite Hn. now apply IH.
Qed.

(** X3.  When no file of the tree passes the filter, the generator makes
    no platform call at all: it prints the diagnostic alone and leaves
    through [exit()], with the platform, the file store and the log
    exactly as they were. *)
Theorem nothing_to_upload
        (e : Env P) (dir : string) (t : tree) (files : gmap string string) :
  forallb (fun rn => negb (allowed rn.2)) (tree_files dir t) = true ->
  scan_codebase (initial e dir t files)
  = (SystemExit None, mkWorld e dir t files [no_files_message] []).
Proof.
  intros H. apply selected_none in H.
  assert (Hc : candidates dir t = []).
  { apply Permutation_nil. rewrite <- H. symmetry. apply candidates_perm. }
  rewrite scan_codebase_eq. unfold initial. cbn [env cwd listing fs stdout calls].
  rewrite Hc. reflexivity.
Qed.


Lemma startswith_nil (s : string) : Str.startswith s "" = true.
Proof. now destruct s. Qed.

Lemma startswith_of_nil (p : string) : Str.startswith "" p = true -> p = "".
Proof. now destruct p. Qed.

Lemma startswith_app_more (s p x : string) :
  Str.startswith s p = true -> Str.startswith (s +:+ x) p = true.
Proof.
  revert s. induction p as [|c p IH]; intros s H.
  - apply startswith_nil.
  - destruct s as [|d s]; [discriminate|].
    change (String d s +:+ x) with (String d (s +:+ x)).
    cbn [Str.startswith] in *. apply andb_true_iff in H as [Hc Hs].
    now rewrite Hc, IH.
Qed.

Lemma startswith_refl (s : string) : Str.startswith s s = true.
Proof.
  induction s as [|c s IH]; [reflexivity|].
  cbn [Str.startswith]. now rewrite Ascii.eqb_refl, IH.
Qed.

(** Joining a relative name keeps every prefix of the directory. *)
Lemma join_keeps_prefix (top r name : string) :
  Str.startswith name Path.sep = false ->
  Str.startswith r top = true ->
  Str.startswith (Path.join r name) top = true.
Proof.
  intros Hn Hr. unfold Path.join. rewrite Hn. cbn [orb].
  destruct (String.eqb_spec r "") as [-> | _].
  - apply startswith_of_nil in Hr as ->. apply startswith_nil.
  - destruct (Str.endswith r Path.sep); now apply startswith_app_more.
Qed.

Lemma entry_files_under (e : entry) :
  entry_well_named e = true ->
  forall top r dn,
    Str.startswith r top = true -> In dn (entry_files r e) ->
    Str.startswith (Path.join dn.1 dn.2) top = true.
Proof.
  induction e as [name | name children IH] using entry_nested_ind;
    cbn [entry_well_named entry_files]; intros Hwn top r dn Hr Hin.
  - destruct Hin as [<- | []]. cbn [fst snd].
    apply join_keeps_prefix; [|exact Hr]. now apply negb_true_iff.
  - apply andb_true_iff in Hwn as [Hname Hch].
    apply negb_true_iff in Hname.
    apply in_flat_map in Hin as [c [Hc Hin]].
    rewrite forallb_forall in Hch. rewrite Forall_forall in IH.
    apply (IH c (proj2 (list_elem_of_In _ _) Hc) (Hch c Hc) top
              (Path.join r name) dn); [|exact Hin].
    now apply join_keeps_prefix.
Qed.

(** X5.  When no name of the tree starts with the separator, every path
    the walk hands to [upload_file] starts with the directory the walk
    was started in. *)
Theorem uploads_stay_under_directory
        (e : Env P) (dir : string) (t : tree) (files : gmap string string)
        (directory : string) :
  let r := upload_codebase_files directory (initial e dir t files) in
  well_named t = true ->
  Forall (fun path => Str.startswith path directory = true)
         (map fst (uploads (calls r.2))).
Proof.
  intros r Hwn. subst r. rewrite walk_uploads_log, upload_all_paths.
  apply List.Forall_forall. intros path Hin.
  apply (Permutation_in _ (candidates_perm directory t)) in Hin.
  unfold selected in Hin. apply in_map_iff in Hin as [dn [<- Hin]].
  apply List.filter_In in Hin as [Hin _].
  unfold tree_files in Hin. apply in_flat_map in Hin as [c [Hc Hin]].
  unfold well_named in Hwn. rewrite forallb_forall in Hwn.
  apply (entry_files_under c (Hwn c Hc) directory directory dn);
    [apply startswith_refl | exact Hin].
Qed.

Lemma successes_In (ups : list (string * (exn + Handle P))) path h :
  In (path, inr h) ups -> In h (successes ups).
Proof.
  induction ups as [|[p [x | h']] ups IH]; cbn [In successes]; intros Hin.
  - exact Hin.
  - destruct Hin as [Heq | Hin]; [discriminate | now apply IH].
  - destruct Hin as [Heq | Hin].
    + left. congruence.
    + right. now apply IH.
Qed.

(** X6.  Each successful upload is announced: the walk prints
    [Uploaded: <path>] for it. *)
Theorem successful_upload_is_announced
        (e : Env P) (dir : string) (t : tree) (files : gmap string string)
        (directory : string) :
  let r := upload_codebase_files directory (initial e dir t files) in
  forall path h,
    In (path, inr h) (uploads (calls r.2)) ->
    In ("Uploaded: " +:+ path) (stdout r.2) /\
    exists hs, r.1 = Ret hs /\ In h hs.
Proof.
  intros r path h Hin. subst r. rewrite walk_uploads_log in Hin.
  rewrite upload_codebase_files_eq. cbn [fst snd initial advance stdout app].
  set (rs := (upload_all (candidates directory t) e).1) in *. split.
  - apply in_map_iff. exists (path, inr h). now split.
  - exists (successes rs). split; [reflexivity|]. now apply successes_In with path.
Qed.

(* ===================================================================== *)
(** * Further properties of the scripts                                   *)
(* ===================================================================== *)

Lemma touches_as_call (rs : list (string * (exn + Handle P))) (c : Call) :
  In c (map as_call rs) -> touches c = None.
Proof. rewrite in_map_iff. now intros [[path r] [<- _]]. Qed.

(** X7.  Whatever happens in a run of the generator, the only file it
    opens or writes is [README.md], and every other file of the store
    reads as before. *)
Theorem other_files_untouched
        (e : Env P) (dir : string) (t : tree) (files : gmap string string)
        (path : string) :
  let r := scan_codebase (initial e dir t files) in
  path <> "README.md" ->
  fs r.2 !! path = files !! path /\
  forall c, In c (calls r.2) -> touches c = None \/ touches c = Some "README.md".
Proof.
  intros r Hne. subst r.
  scan_cases e dir t files; (split; [try reflexivity; now rewrite lookup_insert_ne |]);
    intros c Hin;
    try (apply in_app_or in Hin as [Hin | Hin]);
    try (left; now apply touches_as_call with rs);
    cbn [In] in Hin; repeat (destruct Hin as [<- | Hin]); try destruct Hin;
    cbn; auto.
Qed.

(** X8.  When [open] raises, the file store is exactly what it was. *)
Theorem failed_open_keeps_store
        (e : Env P) (dir : string) (t : tree) (files : gmap string string) :
  let r := scan_codebase (initial e dir t files) in
  forall path ex,
    In (COpen path (Some ex)) (calls r.2) ->
    path = "README.md" /\ fs r.2 = files.
Proof.
  intros r path ex. subst r.
  scan_cases e dir t files; intros Hin;
    try (apply in_app_or in Hin as [Hin | Hin]);
    try (apply touches_as_call in Hin; discriminate);
    cbn [In] in Hin;
    repeat (destruct Hin as [Heq | Hin]; try discriminate);
    try destruct Hin.
  injection Heq as <- <-. now split.
Qed.


(** X10.  The connectivity check ends with status 0 when the request is
    answered and with status 1 and the traceback of the exception when
    the request raises. *)
Theorem test_gemini_exit
        (e : Env P) (dir : string) (t : tree) (files : gmap string string) :
  (run test_gemini (initial e dir t files)).1
  = match (generate_content P (CStr "What is the capital of France?") e).1 with
    | inr _ => mkExit 0 None
    | inl ex => mkExit 1 (Some ex)
    end.
Proof.
  unfold run. cbn [fst]. rewrite test_gemini_eq. unfold initial.
  cbn [env cwd listing fs stdout calls].
  now destruct (generate_content P (CStr "What is the capital of France?") e)
    as [[ex | resp] e1].
Qed.


(** X12.  Standard output of the generator is the upload lines, one per
    attempt and in order, followed by the diagnostic when no generation
    call was made, by the text of the response when the call was
    answered, and by nothing when it raised. *)
Theorem stdout_shape
        (e : Env P) (dir : string) (t : tree) (files : gmap string string) :
  let r := scan_codebase (initial e dir t files) in
  stdout r.2
  = map report (uploads (calls r.2))
    ++ match generations (calls r.2) with
       | [] => [no_files_message]
       | (_, inr resp) :: _ => [text P resp]
       | (_, inl _) :: _ => []
       end.
Proof.
  intros r. subst r. scan_cases e dir t files; now rewrite ?app_nil_r.
Qed.

(** X13.  Every upload is made before anything else: the log of a run is
    the upload calls followed by at most three calls, none of them an
    upload. *)
Theorem uploads_come_first
        (e : Env P) (dir : string) (t : tree) (files : gmap string string) :
  let r := scan_codebase (initial e dir t files) in
  exists rest,
    calls r.2 = map as_call (uploads (calls r.2)) ++ rest /\
    uploads rest = [] /\ length rest <= 3.
Proof.
  intros r. subst r.
  scan_cases e dir t files; eexists; (split; [reflexivity || (symmetry; apply app_nil_r)|]);
    cbn; split; (reflexivity || lia).
Qed.

End Scripts.

(* ===================================================================== *)
(** * The theorems at work on concrete runs                               *)
(* ===================================================================== *)

(** The scenario of the specification: [a.py] and [b.css] are attempted,
    [b.css] is refused, [notes.txt] is passed over. *)
Example scenario :
  let r := scan_codebase Demo.refusing_b_css
             (initial Demo.refusing_b_css 0 "/proj" Demo.project Demo.old_store) in
  r.1 = Ret tt /\
  stdout _ r.2 = ["Uploaded: /proj/a.py";
                  "Failed to upload /proj/b.css: 503 upload refused";
                  "# Project"] /\
  calls _ r.2 =
    [CUpload Demo.refusing_b_css "/proj/a.py" (inr "files//proj/a.py");
     CUpload Demo.refusing_b_css "/proj/b.css" (inl (Exception "503 upload refused"));
     CGenerate Demo.refusing_b_css
       (CList [PText prompt; PFile "files//proj/a.py"]) (inr "# Project");
     COpen Demo.refusing_b_css "README.md" None;
     CWrite Demo.refusing_b_css "README.md" "# Project" None] /\
  fs _ r.2 !! "README.md" = Some "# Project" /\
  fs _ r.2 !! "LICENSE" = Some "MIT".
Proof. vm_compute. repeat split. Qed.

Lemma one_generation_witness :
  (exists path h,
      In (path, inr h)
         (uploads Demo.refusing_b_css
            (calls Demo.refusing_b_css
               (scan_codebase Demo.refusing_b_css
                  (initial Demo.refusing_b_css 0 "/proj" Demo.project ∅)).2))) /\
  exists answer,
    generations Demo.refusing_b_css
      (calls Demo.refusing_b_css
         (scan_codebase Demo.refusing_b_css
            (initial Demo.refusing_b_css 0 "/proj" Demo.project ∅)).2)
    = [(CList [PText prompt; PFile "files//proj/a.py"], answer)].
Proof.
  assert (H : exists path h,
             In (path, inr h)
                (uploads Demo.refusing_b_css
                   (calls Demo.refusing_b_css
                      (scan_codebase Demo.refusing_b_css
                         (initial Demo.refusing_b_css 0 "/proj" Demo.project ∅)).2))).
  { exists "/proj/a.py", "files//proj/a.py". vm_compute. left. reflexivity. }
  split; [exact H|].
  exact (proj2 (one_generation_with_successful_handles
                  Demo.refusing_b_css 0 "/proj" Demo.project ∅ H)).
Defined.

Lemma no_upload_witness :
  (forall path h,
      ~ In (path, inr h)
           (uploads Demo.refusing_all
              (calls Demo.refusing_all
                 (scan_codebase Demo.refusing_all
                    (initial Demo.refusing_all 0 "/proj" Demo.project Demo.old_store)).2))) /\
  (scan_codebase Demo.refusing_all
     (initial Demo.refusing_all 0 "/proj" Demo.project Demo.old_store)).1
  = SystemExit None /\
  generations Demo.refusing_all
    (calls Demo.refusing_all
       (scan_codebase Demo.refusing_all
          (initial Demo.refusing_all 0 "/proj" Demo.project Demo.old_store)).2) = [] /\
  fs Demo.refusing_all
    (scan_codebase Demo.refusing_all
       (initial Demo.refusing_all 0 "/proj" Demo.project Demo.old_store)).2
  = Demo.old_store.
Proof.
  assert (H : forall path h,
             ~ In (path, inr h)
                  (uploads Demo.refusing_all
                     (calls Demo.refusing_all
                        (scan_codebase Demo.refusing_all
                           (initial Demo.refusing_all 0 "/proj" Demo.project
                                    Demo.old_store)).2))).
  { intros path h Hin. vm_compute in Hin.
    destruct Hin as [Hin | [Hin | []]]; discriminate. }
  split; [exact H|].
  destruct (no_upload_no_generation Demo.refusing_all 0 "/proj" Demo.project
              Demo.old_store H) as [Hexit [Hgen [_ [Hfs _]]]].
  repeat split; assumption.
Defined.

Lemma failed_upload_witness :
  In ("/proj/b.css", inl (Exception "503 upload refused"))
     (uploads Demo.refusing_b_css
        (calls Demo.refusing_b_css
           (upload_codebase_files Demo.refusing_b_css "/proj"
              (initial Demo.refusing_b_css 0 "/proj" Demo.project ∅)).2)) /\
  In "Failed to upload /proj/b.css: 503 upload refused"
     (stdout Demo.refusing_b_css
        (upload_codebase_files Demo.refusing_b_css "/proj"
           (initial Demo.refusing_b_css 0 "/proj" Demo.project ∅)).2) /\
  map fst
      (uploads Demo.refusing_b_css
         (calls Demo.refusing_b_css
            (upload_codebase_files Demo.refusing_b_css "/proj"
               (initial Demo.refusing_b_css 0 "/proj" Demo.project ∅)).2))
  = candidates "/proj" Demo.project.
Proof.
  assert (H : In ("/proj/b.css", inl (Exception "503 upload refused"))
                 (uploads Demo.refusing_b_css
                    (calls Demo.refusing_b_css
                       (upload_codebase_files Demo.refusing_b_css "/proj"
                          (initial Demo.refusing_b_css 0 "/proj" Demo.project ∅)).2))).
  { vm_compute. right. left. reflexivity. }
  split; [exact H|].
  destruct (failed_upload_is_reported_and_skipped Demo.refusing_b_css 0 "/proj"
              Demo.project ∅ "/proj" "/proj/b.css"
              (Exception "503 upload refused") H) as [_ [Hline [_ [Hall _]]]].
  split; assumption.
Defined.

Lemma readme_overwritten_witness :
  (scan_codebase Demo.working
     (initial Demo.working 0 "/proj" Demo.project Demo.old_store)).1 = Ret tt /\
  exists contents resp,
    generations Demo.working
      (calls Demo.working
         (scan_codebase Demo.working
            (initial Demo.working 0 "/proj" Demo.project Demo.old_store)).2)
    = [(contents, inr resp)] /\
    fs Demo.working
       (scan_codebase Demo.working
          (initial Demo.working 0 "/proj" Demo.project Demo.old_store)).2
    !! "README.md" = Some (text Demo.working resp).
Proof.
  assert (H : (scan_codebase Demo.working
                 (initial Demo.working 0 "/proj" Demo.project Demo.old_store)).1
              = Ret tt).
  { vm_compute. reflexivity. }
  split; [exact H|].
  destruct (readme_is_overwritten Demo.working 0 "/proj" Demo.project
              Demo.old_store H) as [contents [resp [Hgen [_ Hfile]]]].
  exists contents, resp. split; assumption.
Defined.

Lemma generation_failure_witness :
  In (CGenerate Demo.out_of_quota
        (CList [PText prompt; PFile "files//proj/a.py"; PFile "files//proj/b.css"])
        (inl (Exception "429 quota exceeded")))
     (calls Demo.out_of_quota
        (scan_codebase Demo.out_of_quota
           (initial Demo.out_of_quota 0 "/proj" Demo.project Demo.old_store)).2) /\
  (scan_codebase Demo.out_of_quota
     (initial Demo.out_of_quota 0 "/proj" Demo.project Demo.old_store)).1
  = Raise (Exception "429 quota exceeded") /\
  (run Demo.out_of_quota (scan_codebase Demo.out_of_quota)
     (initial Demo.out_of_quota 0 "/proj" Demo.project Demo.old_store)).1
  = mkExit 1 (Some (Exception "429 quota exceeded")).
Proof.
  assert (H : In (CGenerate Demo.out_of_quota
                    (CList [PText prompt; PFile "files//proj/a.py";
                            PFile "files//proj/b.css"])
                    (inl (Exception "429 quota exceeded")))
                 (calls Demo.out_of_quota
                    (scan_codebase Demo.out_of_quota
                       (initial Demo.out_of_quota 0 "/proj" Demo.project
                                Demo.old_store)).2)).
  { vm_compute. right. right. left. reflexivity. }
  split; [exact H|].
  destruct (generation_and_write_failures_propagate Demo.out_of_quota 0 "/proj"
              Demo.project Demo.old_store _ (Exception "429 quota exceeded")
              H eq_refl) as [Hraise [Hrun _]].
  split; assumption.
Defined.

Lemma early_exit_witness :
  (forall path h,
      ~ In (path, inr h)
           (uploads Demo.refusing_all
              (calls Demo.refusing_all
                 (scan_codebase Demo.refusing_all
                    (initial Demo.refusing_all 0 "/proj" Demo.project ∅)).2))) /\
  status
    (run Demo.refusing_all (scan_codebase Demo.refusing_all)
       (initial Demo.refusing_all 0 "/proj" Demo.project ∅)).1 = 0%Z.
Proof.
  assert (H : forall path h,
             ~ In (path, inr h)
                  (uploads Demo.refusing_all
                     (calls Demo.refusing_all
                        (scan_codebase Demo.refusing_all
                           (initial Demo.refusing_all 0 "/proj" Demo.project ∅)).2))).
  { intros path h Hin. vm_compute in Hin.
    destruct Hin as [Hin | [Hin | []]]; discriminate. }
  split; [exact H|].
  exact (proj1 (proj2 (early_exit_has_status_zero Demo.refusing_all 0 "/proj"
                         Demo.project ∅ H))).
Defined.

Lemma case_sensitive_witness :
  allowed (Str.lower "MAIN.PY") = true /\
  allowed "MAIN.PY" = false /\
  ~ In (Path.join "/proj" "MAIN.PY")
       (map fst
          (uploads Demo.working
             (calls Demo.working
                (scan_codebase Demo.working
                   (initial Demo.working 0 "/proj" Demo.nested ∅)).2))) /\
  In (Path.join "/proj" (Str.lower "MAIN.PY"))
     (map fst
        (uploads Demo.working
           (calls Demo.working
              (scan_codebase Demo.working
                 (initial Demo.working 0 "/proj" Demo.nested ∅)).2))).
Proof.
  assert (Hlow : allowed (Str.lower "MAIN.PY") = true) by reflexivity.
  assert (Hexact : allowed "MAIN.PY" = false) by reflexivity.
  split; [exact Hlow|]. split; [exact Hexact|].
  destruct (extension_filter_is_case_sensitive Demo.working 0 "/proj" Demo.nested ∅
              "MAIN.PY" Hlow Hexact) as [Hno Hyes].
  split; [apply Hno|].
  apply (Hyes "/proj" ["src"] ["README.md"; "MAIN.PY"; "main.py"]).
  - vm_compute. left. reflexivity.
  - vm_compute. right. right. left. reflexivity.
Defined.

(** The same generator against a full disk: the [write] raises, the
    exception reaches the interpreter, and the file is left truncated. *)
Example disk_full_run :
  let r := scan_codebase Demo.full_disk
             (initial Demo.full_disk 0 "/proj" Demo.project Demo.old_store) in
  r.1 = Raise (Exception "No space left on device") /\
  length (generations _ (calls _ r.2)) = 1 /\
  fs _ r.2 !! "README.md" = Some "".
Proof. vm_compute. repeat split. Qed.

(** The deeper tree: upper-case names and the old document are passed
    over, the walk visits a directory before its sub-directories. *)
Example nested_run :
  map fst (uploads _ (calls _ (scan_codebase Demo.working
                                 (initial Demo.working 0 "/proj" Demo.nested ∅)).2))
  = ["/proj/main.py"; "/proj/src/app.tsx"; "/proj/src/lib/util.js"].
Proof. vm_compute. reflexivity. Qed.

Lemma nothing_to_upload_witness :
  forallb (fun rn => negb (allowed rn.2)) (tree_files "/proj" Demo.docs_only) = true /\
  scan_codebase Demo.working (initial Demo.working 0 "/proj" Demo.docs_only Demo.old_store)
  = (SystemExit None,
     mkWorld Demo.working 0 "/proj" Demo.docs_only Demo.old_store
             [no_files_message] []).
Proof.
  assert (H : forallb (fun rn => negb (allowed rn.2))
                      (tree_files "/proj" Demo.docs_only) = true)
    by (vm_compute; reflexivity).
  split; [exact H|].
  exact (nothing_to_upload Demo.working 0 "/proj" Demo.docs_only Demo.old_store H).
Defined.

Lemma uploads_stay_under_witness :
  well_named Demo.nested = true /\
  Forall (fun path => Str.startswith path "/proj" = true)
         (map fst
            (uploads Demo.working
               (calls Demo.working
                  (upload_codebase_files Demo.working "/proj"
                     (initial Demo.working 0 "/proj" Demo.nested ∅)).2))).
Proof.
  assert (H : well_named Demo.nested = true) by (vm_compute; reflexivity).
  split; [exact H|].
  exact (uploads_stay_under_directory Demo.working 0 "/proj" Demo.nested ∅ "/proj" H).
Defined.

Lemma successful_upload_witness :
  In ("/proj/a.py", inr "files//proj/a.py")
     (uploads Demo.refusing_b_css
        (calls Demo.refusing_b_css
           (upload_codebase_files Demo.refusing_b_css "/proj"
              (initial Demo.refusing_b_css 0 "/proj" Demo.project ∅)).2)) /\
  In "Uploaded: /proj/a.py"
     (stdout Demo.refusing_b_css
        (upload_codebase_files Demo.refusing_b_css "/proj"
           (initial Demo.refusing_b_css 0 "/proj" Demo.project ∅)).2).
Proof.
  assert (H : In ("/proj/a.py", inr "files//proj/a.py")
                 (uploads Demo.refusing_b_css
                    (calls Demo.refusing_b_css
                       (upload_codebase_files Demo.refusing_b_css "/proj"
                          (initial Demo.refusing_b_css 0 "/proj" Demo.project ∅)).2))).
  { vm_compute. left. reflexivity. }
  split; [exact H|].
  exact (proj1 (successful_upload_is_announced Demo.refusing_b_css 0 "/proj"
                  Demo.project ∅ "/proj" "/proj/a.py" "files//proj/a.py" H)).
Defined.

Lemma other_files_witness :
  "LICENSE" <> "README.md" /\
  fs Demo.working
     (scan_codebase Demo.working
        (initial Demo.working 0 "/proj" Demo.project Demo.old_store)).2 !! "LICENSE"
  = Demo.old_store !! "LICENSE".
Proof.
  assert (H : "LICENSE" <> "README.md") by discriminate.
  split; [exact H|].
  exact (proj1 (other_files_untouched Demo.working 0 "/proj" Demo.project
                  Demo.old_store "LICENSE" H)).
Defined.

Lemma failed_open_witness :
  In (COpen Demo.read_only "README.md" (Some (Exception "Permission denied")))
     (calls Demo.read_only
        (scan_codebase Demo.read_only
           (initial Demo.read_only 0 "/proj" Demo.project Demo.old_store)).2) /\
  fs Demo.read_only
     (scan_codebase Demo.read_only
        (initial Demo.read_only 0 "/proj" Demo.project Demo.old_store)).2
  = Demo.old_store.
Proof.
  assert (H : In (COpen Demo.read_only "README.md" (Some (Exception "Permission denied")))
                 (calls Demo.read_only
                    (scan_codebase Demo.read_only
                       (initial Demo.read_only 0 "/proj" Demo.project
                                Demo.old_store)).2)).
  { vm_compute. do 3 right. left. reflexivity. }
  split; [exact H|].
  exact (proj2 (failed_open_keeps_store Demo.read_only 0 "/proj" Demo.project
                  Demo.old_store "README.md" (Exception "Permission denied") H)).
Defined.


Example walk_demo :
  walk "/p" [File "a.py"; Folder "src" [File "b.css"]; File "notes.txt"; Folder "x" []]
  = [("/p", ["src"; "x"], ["a.py"; "notes.txt"]);
     ("/p/src", [], ["b.css"]);
     ("/p/x", [], [])].
Proof. reflexivity. Qed.

Example join_demo :
  Path.join "/p" "a.py" = "/p/a.py" /\ Path.join "/" "a.py" = "/a.py" /\
  Path.join "" "a.py" = "a.py" /\ Path.join "/p" "/q" = "/q".
Proof. repeat split. Qed.

Example endswith_demo :
  Str.endswith "main.py" ".py" = true /\ Str.endswith "py" ".py" = false /\
  Str.endswith "MAIN.PY" ".py" = false /\ Str.endswith "a" "" = true.
Proof. repeat split. Qed.
